(** * magician.c: the card store behind /proc/magician and /dev/magician

    A shallow embedding of the file-operation handlers of [magician.c]
    (a Linux character device plus a procfs entry sharing one static
    buffer) and the properties of its behavioural description.

    Conventions.
    - [size_t] and [unsigned long] are 64-bit unsigned integers, [ssize_t]
      and [loff_t] 64-bit signed ones (LP64); values are in [Z], the
      conversions between the two are written out ([to_ssize_t],
      [to_loff_t]).
    - Globals of the module ([card], [card_size], [already_open]) are the
      fields of the record [magician]; handlers take the record and
      return the new one when they assign a global.
    - [loff_t *offset] is passed in and returned.
    - A user-space buffer is the list of bytes addressable from the
      pointer the handler receives; touching what lies past its end
      faults.
    - [pr_info]/[pr_alert] only log and are left out.
    - For [magician_init] and [magician_exit] the kernel's side is a record
      of what is registered for the module; what the kernel answers to
      each registration is an argument. *)

From Stdlib Require Import ZArith Lia.
From Stdlib Require Import Strings.Byte Strings.String.
From stdpp Require Import base numbers list.

#[local] Open Scope Z_scope.

(** ** Machine integers *)

Definition SIZE_MAX : Z := 2 ^ 64 - 1.
Definition SSIZE_MAX : Z := 2 ^ 63 - 1.

(** Values a [size_t] parameter can hold. *)
Definition size_t_range (n : Z) : Prop := 0 <= n <= SIZE_MAX.

(** Values an [loff_t] can hold. *)
Definition loff_t_range (o : Z) : Prop := - 2 ^ 63 <= o <= SSIZE_MAX.

(** Conversion of a 64-bit pattern to the signed type (two's complement). *)
Definition to_signed64 (x : Z) : Z :=
  let m := x mod 2 ^ 64 in
  if m <? 2 ^ 63 then m else m - 2 ^ 64.

Definition to_ssize_t (x : Z) : Z := to_signed64 x.
Definition to_loff_t (x : Z) : Z := to_signed64 x.

(** ** Constants of the module *)

Definition MAX_SIZE : Z := 1024.
Definition EFAULT : Z := 14.
Definition EBUSY : Z := 16.

(** [enum { DEVICE_NOT_USED, DEVICE_EXCLUSIVE_OPEN }] *)
Inductive usage : Set :=
| DEVICE_NOT_USED
| DEVICE_EXCLUSIVE_OPEN.

Definition usage_val (u : usage) : Z :=
  match u with
  | DEVICE_NOT_USED => 0
  | DEVICE_EXCLUSIVE_OPEN => 1
  end.

#[global] Instance usage_eq_dec : EqDecision usage.
Proof. solve_decision. Defined.

#[global] Instance byte_inhabited : Inhabited byte := populate Byte.x00.

(** ** Module state *)

(** [static char card[MAX_SIZE]; static unsigned long card_size;
    static atomic_t already_open]. *)
Record magician : Type := Magician {
  card : list byte;
  card_size : Z;
  already_open : usage
}.

(** Static storage is zeroed; [magician_init] clears [card] again. *)
Definition initial : magician :=
  {| card := replicate (Z.to_nat MAX_SIZE) Byte.x00;
     card_size := 0;
     already_open := DEVICE_NOT_USED |}.

Definition set_card (st : magician) (c : list byte) : magician :=
  {| card := c; card_size := card_size st; already_open := already_open st |}.

Definition set_card_size (st : magician) (n : Z) : magician :=
  {| card := card st; card_size := n; already_open := already_open st |}.

Definition set_already_open (st : magician) (u : usage) : magician :=
  {| card := card st; card_size := card_size st; already_open := u |}.

(** The card as the description speaks of it: [content[0:length]]. *)
Definition stored_card (st : magician) : list byte :=
  take (Z.to_nat (card_size st)) (card st).

(** ** Kernel primitives used by the handlers *)

(** [atomic_cmpxchg(v, old, new)]: stores [new] when the cell holds [old];
    gives back the cell and the value it held before. *)
Definition atomic_cmpxchg (v old new : usage) : usage * usage :=
  (if decide (v = old) then new else v, v).

(** [put_user(x, ptr)] with [ptr] the [p]-th byte of the user buffer [u]:
    0 and the byte stored, or [-EFAULT] when [ptr] is not addressable. *)
Definition put_user (x : byte) (u : list byte) (p : Z) : list byte * Z :=
  if decide (0 <= p < Z.of_nat (length u))
  then (<[Z.to_nat p := x]> u, 0)
  else (u, - EFAULT).

(** [copy_to_user(to, from, n)]: copies what fits the addressable part of
    [to] and returns the number of bytes it could not copy. *)
Definition copy_to_user (to from : list byte) (n : Z) : list byte * Z :=
  let k := Z.min n (Z.of_nat (length to)) in
  (take (Z.to_nat k) from ++ drop (Z.to_nat k) to, n - k).

(** ** What a handler hands back *)

(** A read handler: the value returned, the user buffer and [*offset]
    afterwards.  Read handlers assign no global. *)
Record rd : Type := Rd {
  rd_ret : Z;
  rd_user : list byte;
  rd_offset : Z
}.

(** A write handler: the globals, the value returned and [*offset]
    afterwards. *)
Record wr : Type := Wr {
  wr_state : magician;
  wr_ret : Z;
  wr_offset : Z
}.

(** The bytes a reader receives: as many of its buffer as the handler
    reported (none when it reported an error). *)
Definition delivered (r : rd) : list byte :=
  take (Z.to_nat (rd_ret r)) (rd_user r).

Section Handlers.

(** What [copy_from_user] leaves in the part of the destination it could
    not fill is the kernel's business: current kernels clear it, others
    leave it as it was.  The handlers are modelled for both. *)
Variable zero_pad : bool.

(** [copy_from_user(to, from, n)]: [from] holds the bytes readable at the
    user pointer; returns the number of bytes it could not copy. *)
Definition copy_from_user (to from : list byte) (n : Z) : list byte * Z :=
  let k := Z.min n (Z.of_nat (length from)) in
  let rest := take (Z.to_nat (n - k)) (drop (Z.to_nat k) to) in
  (take (Z.to_nat k) from
     ++ (if zero_pad then replicate (length rest) Byte.x00 else rest)
     ++ drop (Z.to_nat n) to,
   n - k).

(** ** /dev/magician *)

Definition device_open (st : magician) : magician * Z :=
  let '(cell, old) :=
    atomic_cmpxchg (already_open st) DEVICE_NOT_USED DEVICE_EXCLUSIVE_OPEN in
  let st := set_already_open st cell in
  if negb (usage_val old =? 0) then (st, - EBUSY) else (st, 0).

Definition device_release (st : magician) : magician * Z :=
  (set_already_open st DEVICE_NOT_USED, 0).

(** The body of [for (i = 0; i < length; i++)] in [device_read], run for
    the [todo] iterations that remain; [p] is [buffer] as an index of the
    user buffer.  The flag tells whether [put_user] failed. *)
Fixpoint device_read_loop (st : magician) (u : list byte) (p i : Z)
    (todo : nat) : list byte * bool :=
  match todo with
  | O => (u, false)
  | S todo' =>
      let '(u', err) :=
        put_user (card st !!! Z.to_nat (i mod card_size st)) u p in
      if negb (err =? 0) then (u', true)
      else device_read_loop st u' (p + 1) (i + 1) todo'
  end.

Definition device_read (st : magician) (buffer : list byte)
    (length offset : Z) : rd :=
  if card_size st =? 0 then Rd 0 buffer offset
  else
    let '(u, fault) := device_read_loop st buffer 0 0 (Z.to_nat length) in
    if fault then Rd (- EFAULT) u offset
    else Rd (to_ssize_t length) u (to_loff_t (offset + length)).

Definition device_write (st : magician) (buffer : list byte)
    (length offset : Z) : wr :=
  Wr st (to_ssize_t length) offset.

(** ** /proc/magician *)

Definition procfile_read (st : magician) (buffer : list byte)
    (length offset : Z) : rd :=
  if (offset >? 0) || (card_size st =? 0) then Rd 0 buffer offset
  else
    let '(u, missed) := copy_to_user buffer (card st) (card_size st) in
    if negb (missed =? 0) then Rd (- EFAULT) u offset
    else Rd (to_ssize_t (card_size st)) u (to_loff_t (offset + card_size st)).

Definition procfile_write (st : magician) (buffer : list byte)
    (length offset : Z) : wr :=
  let st := set_card_size st length in
  let st :=
    if card_size st >=? MAX_SIZE then set_card_size st (MAX_SIZE - 1)
    else st in
  let '(c, missed) := copy_from_user (card st) buffer (card_size st) in
  let st := set_card st c in
  if negb (missed =? 0) then Wr st (- EFAULT) offset
  else
    let st :=
      set_card st (<[Z.to_nat (card_size st) := Byte.x00]> (card st)) in
    Wr st (to_ssize_t (card_size st)) (to_loff_t (offset + card_size st)).

(** ** The module as a whole *)

(** A call of one of the six handlers with its arguments. *)
Inductive call : Type :=
| DeviceOpen
| DeviceRelease
| DeviceRead (buffer : list byte) (length offset : Z)
| DeviceWrite (buffer : list byte) (length offset : Z)
| ProcfileRead (buffer : list byte) (length offset : Z)
| ProcfileWrite (buffer : list byte) (length offset : Z).

(** The globals after a call. *)
Definition run_call (st : magician) (c : call) : magician :=
  match c with
  | DeviceOpen => fst (device_open st)
  | DeviceRelease => fst (device_release st)
  | DeviceRead _ _ _ => st
  | DeviceWrite b n o => wr_state (device_write st b n o)
  | ProcfileRead _ _ _ => st
  | ProcfileWrite b n o => wr_state (procfile_write st b n o)
  end.

Definition run_calls (st : magician) (cs : list call) : magician :=
  foldl run_call st cs.

(** The module together with the number of open files on /dev/magician:
    the VFS counts a file once [device_open] returned 0 and calls
    [device_release] only for a file it counts. *)
Record system : Type := System {
  globals : magician;
  open_files : nat
}.

Definition boot : system := System initial 0.

Inductive vfs_step : system -> system -> Prop :=
| vfs_open_ok s st :
    device_open (globals s) = (st, 0) ->
    vfs_step s (System st (S (open_files s)))
| vfs_open_failed s st e :
    device_open (globals s) = (st, e) -> e <> 0 ->
    vfs_step s (System st (open_files s))
| vfs_release s :
    (0 < open_files s)%nat ->
    vfs_step s (System (fst (device_release (globals s)))
                       (Nat.pred (open_files s)))
| vfs_io s c :
    c <> DeviceOpen -> c <> DeviceRelease ->
    vfs_step s (System (run_call (globals s) c) (open_files s)).

(** The states the module can be in after it was loaded. *)
Inductive reachable : system -> Prop :=
| reachable_boot : reachable boot
| reachable_step s s' : reachable s -> vfs_step s s' -> reachable s'.

End Handlers.

(** ** Predicates of the description *)

(** Integer arguments of a call fit their C types. *)
Definition call_ok (c : call) : Prop :=
  match c with
  | DeviceOpen | DeviceRelease => True
  | DeviceRead _ n o | DeviceWrite _ n o
  | ProcfileRead _ n o | ProcfileWrite _ n o =>
      size_t_range n /\ loff_t_range o
  end.

(** [0 <= length < MAX_SIZE], and [card] is an array of [MAX_SIZE] bytes. *)
Definition store_ok (st : magician) : Prop :=
  0 <= card_size st < MAX_SIZE /\ length (card st) = Z.to_nat MAX_SIZE.

(** Output of a cyclic read in the words of the description: [n] bytes,
    byte [i] being [c[i mod len(c)]]. *)
Definition cyclic (c : list byte) (n : nat) : list byte :=
  (fun i => c !!! (i mod length c)%nat) <$> seq 0 n.

Definition bytes (s : string) : list byte := list_byte_of_string s.

(** Calls that assign the card. *)
Definition is_procfile_write (c : call) : bool :=
  match c with
  | ProcfileWrite _ _ _ => true
  | _ => false
  end.

(** The number of open files is what [already_open] says. *)
Definition occupancy_ok (s : system) : Prop :=
  open_files s = Z.to_nat (usage_val (already_open (globals s))).

(** ** Stores used in the scenarios *)

(** The store after ["AB"] was written to /proc/magician of a fresh module. *)
Definition store_AB : magician :=
  wr_state (procfile_write false initial (bytes "AB") 2 0).

(** The store after ["HELLO"] was written to /proc/magician. *)
Definition store_HELLO : magician :=
  wr_state (procfile_write false initial (bytes "HELLO") 5 0).

(** The stores of the scenario: ["A"] written to a fresh module, then
    ["BC"] written over it. *)
Definition store_A : magician :=
  wr_state (procfile_write false initial (bytes "A") 1 0).

Definition store_BC : magician :=
  wr_state (procfile_write false store_A (bytes "BC") 2 1).

(** ["AB"] written over ["HELLO"]: the same card as [store_AB] in a buffer
    whose bytes past the card differ. *)
Definition store_AB_over_HELLO : magician :=
  wr_state (procfile_write false store_HELLO (bytes "AB") 2 0).

(** ** Loading and unloading the module *)

Definition ENOMEM : Z := 12.

(** Conversion of a [long] to [int] (32-bit two's complement). *)
Definition to_int (x : Z) : Z :=
  let m := x mod 2 ^ 32 in
  if m <? 2 ^ 31 then m else m - 2 ^ 32.

(** What the kernel has on record for the module: the /proc entry (by its
    pointer), the character device (by its major), the device class (by
    its pointer) and the device node (by its class and major). *)
Record registry : Type := Registry {
  proc_entry : option Z;
  chrdev : option Z;
  dev_class : option Z;
  dev_node : option (Z * Z)
}.

Definition nothing_registered : registry := Registry None None None None.

(** [static struct proc_dir_entry *our_proc_file; static int major;
    static struct class *cls; static struct device *dev]. *)
Record handles : Type := Handles {
  our_proc_file : Z;
  major : Z;
  cls : Z;
  dev : Z
}.

(** What the kernel gives back to the four registrations of
    [magician_init]: a pointer or NULL, a major or a negative errno, a
    pointer or an error pointer (twice). *)
Record answers : Type := Answers {
  proc_create_ans : Z;
  register_chrdev_ans : Z;
  class_create_ans : Z;
  device_create_ans : Z
}.

(** What [magician_init] hands back: its value, the kernel's records, the
    handles and the globals. *)
Record loaded : Type := Loaded {
  ld_ret : Z;
  ld_registry : registry;
  ld_handles : handles;
  ld_state : magician
}.

(** [proc_create]: NULL and nothing recorded, or the new entry. *)
Definition proc_create (k : registry) (ans : Z) : registry * Z :=
  if ans =? 0 then (k, 0)
  else (Registry (Some ans) (chrdev k) (dev_class k) (dev_node k), ans).

(** [register_chrdev(0, ...)]: a negative errno and nothing recorded, or
    the major it picked. *)
Definition register_chrdev (k : registry) (ans : Z) : registry * Z :=
  if ans <? 0 then (k, ans)
  else (Registry (proc_entry k) (Some ans) (dev_class k) (dev_node k), ans).

(** The removals take effect on the record their argument names. *)
Definition proc_remove (k : registry) (p : Z) : registry :=
  if decide (proc_entry k = Some p)
  then Registry None (chrdev k) (dev_class k) (dev_node k) else k.

Definition unregister_chrdev (k : registry) (m : Z) : registry :=
  if decide (chrdev k = Some m)
  then Registry (proc_entry k) None (dev_class k) (dev_node k) else k.

Definition class_destroy (k : registry) (c : Z) : registry :=
  if decide (dev_class k = Some c)
  then Registry (proc_entry k) (chrdev k) None (dev_node k) else k.

(** [device_destroy(cls, MKDEV(major, 0))] *)
Definition device_destroy (k : registry) (c m : Z) : registry :=
  if decide (dev_node k = Some (c, m))
  then Registry (proc_entry k) (chrdev k) (dev_class k) None else k.

Section Loading.

(** [IS_ERR] and [PTR_ERR] of the kernel's err.h. *)
Variable IS_ERR : Z -> bool.
Variable PTR_ERR : Z -> Z.

(** [class_create]: an error pointer and nothing recorded, or the class. *)
Definition class_create (k : registry) (ans : Z) : registry * Z :=
  if IS_ERR ans then (k, ans)
  else (Registry (proc_entry k) (chrdev k) (Some ans) (dev_node k), ans).

(** [device_create(cls, NULL, MKDEV(major, 0), NULL, DEV_NAME)]: an error
    pointer and nothing recorded, or the device node. *)
Definition device_create (k : registry) (c m : Z) (ans : Z) : registry * Z :=
  if IS_ERR ans then (k, ans)
  else (Registry (proc_entry k) (chrdev k) (dev_class k) (Some (c, m)), ans).

(** The three labels at the end of [magician_init]; each falls through to
    the next. *)
Definition label_remove_proc (k : registry) (h : handles) : registry :=
  proc_remove k (our_proc_file h).

Definition label_unregister_chrdev (k : registry) (h : handles) : registry :=
  label_remove_proc (unregister_chrdev k (major h)) h.

Definition label_destroy_class (k : registry) (h : handles) : registry :=
  label_unregister_chrdev (class_destroy k (cls h)) h.

Definition magician_init (a : answers) (k : registry) (h : handles)
    (st : magician) : loaded :=
  let '(k, p) := proc_create k (proc_create_ans a) in
  let h := Handles p (major h) (cls h) (dev h) in
  if our_proc_file h =? 0 then Loaded (- ENOMEM) k h st
  else
    let '(k, m) := register_chrdev k (register_chrdev_ans a) in
    let h := Handles (our_proc_file h) m (cls h) (dev h) in
    if major h <? 0 then Loaded (major h) (label_remove_proc k h) h st
    else
      let '(k, c) := class_create k (class_create_ans a) in
      let h := Handles (our_proc_file h) (major h) c (dev h) in
      if IS_ERR (cls h)
      then Loaded (to_int (PTR_ERR (cls h))) (label_unregister_chrdev k h) h st
      else
        let '(k, d) :=
          device_create k (cls h) (major h) (device_create_ans a) in
        let h := Handles (our_proc_file h) (major h) (cls h) d in
        if IS_ERR (dev h)
        then Loaded (to_int (PTR_ERR (cls h))) (label_destroy_class k h) h st
        else
          Loaded 0 k h
            (set_card st (replicate (Z.to_nat MAX_SIZE) Byte.x00)).

Definition magician_exit (k : registry) (h : handles) : registry :=
  let k := proc_remove k (our_proc_file h) in
  let k := device_destroy k (cls h) (major h) in
  let k := class_destroy k (cls h) in
  unregister_chrdev k (major h).

(** All four registrations went through. *)
Definition answers_ok (a : answers) : bool :=
  negb (proc_create_ans a =? 0)
  && negb (register_chrdev_ans a <? 0)
  && negb (IS_ERR (class_create_ans a))
  && negb (IS_ERR (device_create_ans a)).

End Loading.

(** [IS_ERR] and [PTR_ERR] as err.h has them, on pointers as 64-bit
    patterns: the last [MAX_ERRNO = 4095] values are error pointers. *)
Definition linux_IS_ERR (p : Z) : bool := 2 ^ 64 - 4095 <=? p.
Definition linux_PTR_ERR (p : Z) : Z := to_signed64 p.

(** ** Tactics *)

(** Steps through [magician_init] without touching anything else. *)
Ltac init_step :=
  cbv iota beta;
  cbn [proc_create_ans register_chrdev_ans class_create_ans
       device_create_ans our_proc_file major cls dev proc_entry chrdev
       dev_class dev_node fst snd].

Ltac init_unfold :=
  unfold magician_init, proc_create, register_chrdev, class_create,
    device_create, label_destroy_class, label_unregister_chrdev,
    label_remove_proc, nothing_registered;
  init_step.

(** * Properties *)

(** ** Machine integers and list facts *)

Lemma to_signed64_small x : 0 <= x <= SSIZE_MAX -> to_signed64 x = x.
Proof.
  intros Hx. unfold to_signed64, SSIZE_MAX in *.
  rewrite Z.mod_small by lia.
  destruct (Z.ltb_spec x (2 ^ 63)); lia.
Qed.

Lemma to_nat_mod i n :
  0 < n -> Z.to_nat (Z.of_nat i mod n) = (i mod Z.to_nat n)%nat.
Proof.
  intros Hn. rewrite <- (Z2Nat.id n) at 1 by lia.
  rewrite <- Nat2Z.inj_mod. apply Nat2Z.id.
Qed.

Lemma cyclic_length c n : length (cyclic c n) = n.
Proof. unfold cyclic. by rewrite length_fmap, length_seq. Qed.

Lemma cyclic_lookup c n i :
  (i < n)%nat -> cyclic c n !! i = Some (c !!! (i mod length c)%nat).
Proof.
  intros Hi. unfold cyclic.
  rewrite list_lookup_fmap. rewrite lookup_seq_lt by lia. done.
Qed.

Lemma stored_card_length st :
  store_ok st -> length (stored_card st) = Z.to_nat (card_size st).
Proof.
  intros [Hsz Hlen]. unfold stored_card.
  rewrite length_take, Hlen. unfold MAX_SIZE in *. lia.
Qed.

Lemma stored_card_lookup_total st k :
  (k < Z.to_nat (card_size st))%nat -> stored_card st !!! k = card st !!! k.
Proof. intros Hk. unfold stored_card. by apply lookup_total_take_lt. Qed.

(** ** The loop of [device_read] *)

Lemma put_user_ok x u p :
  0 <= p < Z.of_nat (length u) -> put_user x u p = (<[Z.to_nat p := x]> u, 0).
Proof. intros Hp. unfold put_user. by rewrite decide_True. Qed.

Lemma put_user_fault x u p :
  Z.of_nat (length u) <= p -> put_user x u p = (u, - EFAULT).
Proof. intros Hp. unfold put_user. rewrite decide_False by lia. done. Qed.

(** With room for them, all [todo] bytes are stored: position [p + d] gets
    [card[(p + d) % card_size]] and the rest of the buffer is untouched. *)
Lemma device_read_loop_stores st todo :
  forall u p,
    0 <= p -> p + Z.of_nat todo <= Z.of_nat (length u) ->
    exists u',
      device_read_loop st u p p todo = (u', false)
      /\ length u' = length u
      /\ (forall j, (Z.to_nat p <= j < Z.to_nat p + todo)%nat ->
            u' !! j
            = Some (card st !!! Z.to_nat (Z.of_nat j mod card_size st)))
      /\ (forall j, (j < Z.to_nat p \/ Z.to_nat p + todo <= j)%nat ->
            u' !! j = u !! j).
Proof.
  induction todo as [|todo IH]; intros u p Hp Hroom; simpl.
  - exists u. split; [done|]. split; [done|]. split; [intros; lia | done].
  - rewrite put_user_ok by lia. simpl.
    destruct (IH (<[Z.to_nat p := card st !!! Z.to_nat (p mod card_size st)]> u)
                 (p + 1)) as (u' & Hrun & Hlen & Hin & Hout).
    { lia. }
    { rewrite length_insert. lia. }
    exists u'. rewrite Hrun. split; [done|].
    rewrite length_insert in Hlen. split; [done|]. split.
    + intros j Hj. destruct (decide (j = Z.to_nat p)) as [->|Hne].
      * rewrite Hout by lia. rewrite Z2Nat.id by lia.
        apply list_lookup_insert_eq. lia.
      * apply Hin. lia.
    + intros j Hj. rewrite Hout by lia.
      apply list_lookup_insert_ne. lia.
Qed.

(** The loop stops with the flag set once the buffer is exhausted. *)
Lemma device_read_loop_faults st todo :
  forall u p,
    0 <= p <= Z.of_nat (length u) ->
    Z.of_nat (length u) < p + Z.of_nat todo ->
    snd (device_read_loop st u p p todo) = true.
Proof.
  induction todo as [|todo IH]; intros u p Hp Hroom; simpl.
  - lia.
  - destruct (decide (p < Z.of_nat (length u))) as [Hin|Hout].
    + rewrite put_user_ok by lia. simpl.
      apply IH; rewrite length_insert; lia.
    + rewrite put_user_fault by lia. done.
Qed.

(** [device_read] in closed form, for a card in place and a buffer that
    takes the [n] bytes asked for. *)
Lemma device_read_closed_form st u n offset :
  store_ok st -> card_size st <> 0 ->
  0 <= n <= SSIZE_MAX -> n <= Z.of_nat (length u) ->
  device_read st u n offset
  = Rd n (cyclic (stored_card st) (Z.to_nat n) ++ drop (Z.to_nat n) u)
       (to_loff_t (offset + n)).
Proof.
  intros Hok Hne Hn Hroom. unfold device_read.
  destruct (Z.eqb_spec (card_size st) 0) as [|_]; [done|].
  destruct (device_read_loop_stores st (Z.to_nat n) u 0)
    as (u' & Hrun & Hlen & Hin & Hout); [lia | lia |].
  rewrite Hrun. unfold to_ssize_t. rewrite to_signed64_small by done.
  f_equal. apply list_eq. intros j.
  pose proof (stored_card_length st Hok) as Hc. destruct Hok as [Hsz _].
  destruct (decide (j < Z.to_nat n)%nat) as [Hj|Hj].
  - rewrite lookup_app_l by (rewrite cyclic_length; lia).
    rewrite cyclic_lookup, Hin by lia. f_equal.
    rewrite Hc, to_nat_mod by lia.
    symmetry. apply stored_card_lookup_total.
    apply Nat.mod_upper_bound. lia.
  - rewrite lookup_app_r by (rewrite cyclic_length; lia).
    rewrite cyclic_length, lookup_drop, Hout by lia. f_equal. lia.
Qed.

(** A buffer too short for the request makes [device_read] fail, the
    cursor staying where it was. *)
Lemma device_read_fault st u n offset :
  card_size st <> 0 -> Z.of_nat (length u) < n ->
  rd_ret (device_read st u n offset) = - EFAULT
  /\ rd_offset (device_read st u n offset) = offset.
Proof.
  intros Hne Hshort. unfold device_read.
  destruct (Z.eqb_spec (card_size st) 0) as [|_]; [done|].
  pose proof (device_read_loop_faults st (Z.to_nat n) u 0) as Hloop.
  destruct (device_read_loop st u 0 0 (Z.to_nat n)) as [u' fault].
  cbn [snd] in Hloop. rewrite Hloop by lia. done.
Qed.

Lemma stored_card_nonempty st :
  stored_card st <> [] -> card_size st <> 0.
Proof. intros Hc Hz. apply Hc. unfold stored_card. by rewrite Hz. Qed.

Lemma store_AB_ok : store_ok store_AB.
Proof. split; [vm_compute; intuition discriminate | reflexivity]. Defined.

(** ** The copies across the user boundary *)

Lemma copy_from_user_ok zp to from n :
  0 <= n <= Z.of_nat (length from) ->
  copy_from_user zp to from n
  = (take (Z.to_nat n) from ++ drop (Z.to_nat n) to, 0).
Proof.
  intros Hn. unfold copy_from_user.
  rewrite Z.min_l by lia. rewrite Z.sub_diag. simpl.
  by destruct zp.
Qed.


Lemma copy_from_user_length zp to from n :
  0 <= n <= Z.of_nat (length to) ->
  length (fst (copy_from_user zp to from n)) = length to.
Proof.
  intros Hn. unfold copy_from_user. simpl.
  destruct zp; rewrite !length_app, ?length_replicate, !length_take,
    !length_drop; lia.
Qed.


Lemma copy_to_user_ok to from n :
  0 <= n <= Z.of_nat (length to) ->
  copy_to_user to from n
  = (take (Z.to_nat n) from ++ drop (Z.to_nat n) to, 0).
Proof.
  intros Hn. unfold copy_to_user.
  rewrite Z.min_l by lia. by rewrite Z.sub_diag.
Qed.

(** ** [procfile_write] and [procfile_read] in closed form *)

Lemma cap_is_min n :
  (if n >=? MAX_SIZE then MAX_SIZE - 1 else n) = Z.min n (MAX_SIZE - 1).
Proof. unfold MAX_SIZE. destruct (Z.geb_spec n 1024); lia. Qed.

Lemma procfile_write_unfold zp st buffer n offset :
  procfile_write zp st buffer n offset
  = let m := Z.min n (MAX_SIZE - 1) in
    let c := fst (copy_from_user zp (card st) buffer m) in
    if negb (snd (copy_from_user zp (card st) buffer m) =? 0)
    then Wr (Magician c m (already_open st)) (- EFAULT) offset
    else Wr (Magician (<[Z.to_nat m := Byte.x00]> c) m (already_open st))
            (to_ssize_t m) (to_loff_t (offset + m)).
Proof.
  unfold procfile_write. rewrite <- cap_is_min.
  cbn [card_size set_card_size card set_card already_open].
  destruct (n >=? MAX_SIZE);
    cbn [card_size set_card_size card set_card already_open];
    match goal with
    | |- context [copy_from_user ?z ?a ?b ?c] =>
        destruct (copy_from_user z a b c) as [c0 missed]
    end; cbn [fst snd]; by destruct (missed =? 0).
Qed.

Lemma procfile_write_ok zp st s offset :
  let m := Z.min (Z.of_nat (length s)) (MAX_SIZE - 1) in
  procfile_write zp st s (Z.of_nat (length s)) offset
  = Wr (Magician
          (<[Z.to_nat m := Byte.x00]>
             (take (Z.to_nat m) s ++ drop (Z.to_nat m) (card st)))
          m (already_open st))
       m (to_loff_t (offset + m)).
Proof.
  intros m. rewrite procfile_write_unfold. cbv zeta. fold m.
  assert (Hm : 0 <= m <= Z.of_nat (length s) /\ m <= SSIZE_MAX)
    by (unfold m, MAX_SIZE, SSIZE_MAX; lia).
  rewrite copy_from_user_ok by lia. cbn [fst snd Z.eqb negb].
  unfold to_ssize_t. by rewrite to_signed64_small by lia.
Qed.

Lemma procfile_read_closed_form st u n :
  0 <= card_size st <= SSIZE_MAX ->
  card_size st <= Z.of_nat (length u) ->
  procfile_read st u n 0
  = Rd (card_size st)
       (stored_card st ++ drop (Z.to_nat (card_size st)) u)
       (card_size st).
Proof.
  intros Hsz Hroom. unfold procfile_read, stored_card.
  change (0 >? 0) with false. cbn [orb].
  destruct (Z.eqb_spec (card_size st) 0) as [Hz|Hnz].
  - rewrite Hz. change (Z.to_nat 0) with 0%nat. by rewrite drop_0.
  - rewrite copy_to_user_ok by lia. cbn [Z.eqb negb].
    unfold to_ssize_t, to_loff_t.
    by rewrite !to_signed64_small by lia.
Qed.

(** ** C1: the cyclic read *)

(** C1. For a stored non-empty card [c] and a requested length [n >= 0], a
    read of /dev/magician into a buffer that takes [n] bytes returns [n],
    hands over exactly [n] bytes, and byte [i] of them is
    [c[i mod len(c)]] for every [i] in [[0, n)]. *)
Theorem device_read_cyclic st u n offset :
  store_ok st -> stored_card st <> [] ->
  0 <= n <= SSIZE_MAX -> n <= Z.of_nat (length u) ->
  let r := device_read st u n offset in
  rd_ret r = n
  /\ length (delivered r) = Z.to_nat n
  /\ forall i, (i < Z.to_nat n)%nat ->
       delivered r !! i
       = stored_card st !! (i mod length (stored_card st))%nat.
Proof.
  intros Hok Hc Hn Hroom r. subst r.
  rewrite device_read_closed_form
    by auto using stored_card_nonempty.
  unfold delivered. simpl.
  rewrite take_app_length' by (by rewrite cyclic_length).
  split; [done|]. split; [apply cyclic_length|].
  intros i Hi. rewrite cyclic_lookup by done.
  symmetry. apply list_lookup_lookup_total_lt.
  apply Nat.mod_upper_bound. by destruct (stored_card st).
Qed.

Lemma device_read_cyclic_witness :
  let r := device_read store_AB (replicate 5 Byte.xff) 3 7 in
  rd_ret r = 3
  /\ length (delivered r) = Z.to_nat 3
  /\ forall i, (i < Z.to_nat 3)%nat ->
       delivered r !! i
       = stored_card store_AB !! (i mod length (stored_card store_AB))%nat.
Proof.
  apply (device_read_cyclic store_AB (replicate 5 Byte.xff) 3 7).
  - exact store_AB_ok.
  - vm_compute. discriminate.
  - unfold SSIZE_MAX. lia.
  - simpl. lia.
Defined.

(** ** C2: write to /proc/magician, then read it back *)

Lemma take_cap (s : list byte) :
  take (Z.to_nat (Z.min (Z.of_nat (length s)) (MAX_SIZE - 1))) s
  = take (Z.to_nat (MAX_SIZE - 1)) s.
Proof.
  destruct (Z.le_gt_cases (Z.of_nat (length s)) (MAX_SIZE - 1)) as [Hs|Hs].
  - rewrite Z.min_l by lia. rewrite !take_ge by lia. done.
  - by rewrite Z.min_r by lia.
Qed.

Lemma procfile_write_stored zp st s offset :
  stored_card (wr_state (procfile_write zp st s (Z.of_nat (length s)) offset))
  = take (Z.to_nat (MAX_SIZE - 1)) s.
Proof.
  rewrite procfile_write_ok. unfold stored_card. cbn [wr_state card card_size].
  rewrite take_insert_ge by lia.
  rewrite take_app_length'; [apply take_cap|].
  rewrite length_take. unfold MAX_SIZE. lia.
Qed.

(** C2. A write of the byte string [s] to /proc/magician returns
    [min(len(s), MAX_SIZE - 1)] and stores the first [MAX_SIZE - 1] bytes
    of [s], which is [s] itself when [len(s) < MAX_SIZE]; a read of
    /proc/magician from cursor 0, into a buffer that takes them, then
    returns exactly those bytes. *)
Theorem procfile_write_then_read zp st s offset :
  let w := procfile_write zp st s (Z.of_nat (length s)) offset in
  let kept := take (Z.to_nat (MAX_SIZE - 1)) s in
  wr_ret w = Z.min (Z.of_nat (length s)) (MAX_SIZE - 1)
  /\ wr_ret w = Z.of_nat (length kept)
  /\ stored_card (wr_state w) = kept
  /\ (Z.of_nat (length s) < MAX_SIZE -> kept = s)
  /\ (forall u n,
        (length kept <= length u)%nat ->
        let r := procfile_read (wr_state w) u n 0 in
        rd_ret r = Z.of_nat (length kept) /\ delivered r = kept).
Proof.
  intros w kept.
  assert (Hkept : Z.of_nat (length kept)
                  = Z.min (Z.of_nat (length s)) (MAX_SIZE - 1)).
  { unfold kept. rewrite length_take. unfold MAX_SIZE. lia. }
  assert (Hsize : card_size (wr_state w) = Z.of_nat (length kept)).
  { unfold w. rewrite procfile_write_ok. by rewrite Hkept. }
  assert (Hstored : stored_card (wr_state w) = kept)
    by apply procfile_write_stored.
  split; [unfold w; by rewrite procfile_write_ok|].
  split; [unfold w; rewrite procfile_write_ok; by rewrite Hkept|].
  split; [done|]. split.
  - intros Hs. unfold kept, MAX_SIZE in *. apply take_ge. lia.
  - intros u n Hroom r. unfold r.
    rewrite procfile_read_closed_form
      by (rewrite Hsize; unfold SSIZE_MAX, MAX_SIZE in *; lia).
    unfold delivered. cbn [rd_ret rd_user].
    rewrite Hstored, Hsize. split; [done|].
    apply take_app_length'. lia.
Qed.

Lemma procfile_write_then_read_witness :
  let w := procfile_write true store_AB (bytes "HELLO") 5 0 in
  take (Z.to_nat (MAX_SIZE - 1)) (bytes "HELLO") = bytes "HELLO"
  /\ rd_ret (procfile_read (wr_state w) (replicate 8 Byte.xff) 8 0) = 5
  /\ delivered (procfile_read (wr_state w) (replicate 8 Byte.xff) 8 0)
     = bytes "HELLO".
Proof.
  destruct (procfile_write_then_read true store_AB (bytes "HELLO") 0)
    as (_ & _ & _ & Hshort & Hread).
  split; [apply Hshort; vm_compute; reflexivity|].
  apply (Hread (replicate 8 Byte.xff) 8). vm_compute. lia.
Defined.

(** A card longer than the buffer is cut to [MAX_SIZE - 1] bytes. *)
Example procfile_write_truncates :
  let w := procfile_write true initial (replicate 2000 Byte.x41) 2000 0 in
  wr_ret w = 1023
  /\ card_size (wr_state w) = 1023
  /\ delivered (procfile_read (wr_state w) (replicate 2000 Byte.xff) 2000 0)
     = replicate 1023 Byte.x41.
Proof. by vm_compute. Qed.

(** ** C3: the requested length of a read of /proc/magician *)

(** C3. A read of /proc/magician is to hand over at most the [length]
    bytes asked for.  The code does not keep to that: [procfile_read]
    never looks at [length], and with the card ["HELLO"] and a request
    for 1 byte it stores 5 bytes in the caller's buffer and returns 5. *)
Theorem procfile_read_ignores_length :
  (forall st u n n' offset,
      procfile_read st u n offset = procfile_read st u n' offset)
  /\ procfile_read store_HELLO (replicate 8 Byte.xff) 1 0
     = Rd 5 (bytes "HELLO" ++ replicate 3 Byte.xff) 5
  /\ ~ (rd_ret (procfile_read store_HELLO (replicate 8 Byte.xff) 1 0) <= 1)
  /\ ~ (length (delivered
                  (procfile_read store_HELLO (replicate 8 Byte.xff) 1 0))
        <= 1)%nat.
Proof.
  split; [done|]. split; [by vm_compute|].
  split; vm_compute; [intros H; by apply H | lia].
Qed.

(** ** C4: occupancy of /dev/magician *)

Lemma device_open_free st :
  already_open st = DEVICE_NOT_USED ->
  device_open st = (set_already_open st DEVICE_EXCLUSIVE_OPEN, 0).
Proof. intros Hfree. unfold device_open, atomic_cmpxchg. by rewrite Hfree. Qed.

Lemma device_open_held st :
  already_open st = DEVICE_EXCLUSIVE_OPEN -> device_open st = (st, - EBUSY).
Proof.
  intros Hheld. unfold device_open, atomic_cmpxchg. rewrite Hheld.
  destruct st; simpl in *. by subst.
Qed.

Lemma run_call_keeps_already_open zp st c :
  c <> DeviceOpen -> c <> DeviceRelease ->
  already_open (run_call zp st c) = already_open st.
Proof.
  intros Hopen Hrel. destruct c; try done.
  cbn [run_call]. rewrite procfile_write_unfold. cbv zeta.
  by destruct (negb _).
Qed.

Lemma vfs_step_occupancy zp s s' :
  vfs_step zp s s' -> occupancy_ok s -> occupancy_ok s'.
Proof.
  unfold occupancy_ok.
  intros Hstep Hs. destruct Hstep as [s st Hopen|s st e Hopen He|s Hn|s c H1 H2];
    cbn [globals open_files].
  - destruct (already_open (globals s)) eqn:Hcell.
    + rewrite device_open_free in Hopen by done.
      injection Hopen as <-. rewrite Hs. done.
    + rewrite device_open_held in Hopen by done. discriminate.
  - destruct (already_open (globals s)) eqn:Hcell.
    + rewrite device_open_free in Hopen by done.
      injection Hopen as _ <-. done.
    + rewrite device_open_held in Hopen by done.
      injection Hopen as <- _. by rewrite Hcell.
  - simpl. destruct (already_open (globals s)); simpl in Hs; lia.
  - by rewrite run_call_keeps_already_open.
Qed.

Lemma reachable_occupancy zp s : reachable zp s -> occupancy_ok s.
Proof.
  induction 1 as [|s s' _ IH Hstep]; [done|].
  by apply (vfs_step_occupancy zp s).
Qed.

(** C4. The occupancy flag starts as [DEVICE_NOT_USED] (free).  In every
    reachable state at most one file is open on /dev/magician, exactly
    when the flag is [DEVICE_EXCLUSIVE_OPEN] (held).  [device_open]
    returns 0 exactly when the flag is free and then sets it to held; on
    a held flag it returns [-EBUSY] and changes nothing;
    [device_release] sets the flag to free, after which [device_open]
    returns 0 again. *)
Theorem device_occupancy zp :
  already_open initial = DEVICE_NOT_USED
  /\ (forall s, reachable zp s ->
        (open_files s <= 1)%nat
        /\ (open_files s = 1%nat
            <-> already_open (globals s) = DEVICE_EXCLUSIVE_OPEN)
        /\ (open_files s = 0%nat
            <-> already_open (globals s) = DEVICE_NOT_USED))
  /\ (forall st, snd (device_open st) = 0
                 <-> already_open st = DEVICE_NOT_USED)
  /\ (forall st, already_open st = DEVICE_NOT_USED ->
        device_open st = (set_already_open st DEVICE_EXCLUSIVE_OPEN, 0))
  /\ (forall st, already_open st = DEVICE_EXCLUSIVE_OPEN ->
        device_open st = (st, - EBUSY))
  /\ (forall st,
        device_release st = (set_already_open st DEVICE_NOT_USED, 0)
        /\ snd (device_open (fst (device_release st))) = 0).
Proof.
  split; [done|]. split.
  { intros s Hs. apply reachable_occupancy in Hs. unfold occupancy_ok in Hs.
    destruct (already_open (globals s)); simpl in Hs;
      (split; [lia|]); split; split; intros; (lia || done). }
  split.
  { intros st. destruct (already_open st) eqn:Hcell.
    - by rewrite device_open_free.
    - rewrite device_open_held by done. done. }
  split; [apply device_open_free|]. split; [apply device_open_held|].
  intros st. split; [done|]. by rewrite device_open_free.
Qed.

Lemma device_occupancy_witness :
  let held := System (set_already_open initial DEVICE_EXCLUSIVE_OPEN) 1 in
  ((open_files held <= 1)%nat
   /\ (open_files held = 1%nat
       <-> already_open (globals held) = DEVICE_EXCLUSIVE_OPEN)
   /\ (open_files held = 0%nat
       <-> already_open (globals held) = DEVICE_NOT_USED))
  /\ device_open initial
     = (set_already_open initial DEVICE_EXCLUSIVE_OPEN, 0)
  /\ device_open (globals held) = (globals held, - EBUSY).
Proof.
  destruct (device_occupancy false) as (_ & Hreach & _ & Hfree & Hheld & _).
  split; [|split].
  - apply Hreach.
    apply (reachable_step false boot); [apply reachable_boot|].
    apply (vfs_open_ok false boot). reflexivity.
  - apply Hfree. reflexivity.
  - apply Hheld. reflexivity.
Defined.

(** ** C5: reads of an empty store *)

Lemma run_call_keeps_card zp st c :
  is_procfile_write c = false ->
  card (run_call zp st c) = card st
  /\ card_size (run_call zp st c) = card_size st.
Proof.
  destruct c; simpl; try done; intros _.
  unfold device_open, atomic_cmpxchg.
  by destruct (already_open st).
Qed.

(** C5. With [card_size == 0] a read of /dev/magician of any requested
    length and a read of /proc/magician both return 0 and store nothing in
    the caller's buffer; and [card_size] is 0 as long as no write to
    /proc/magician has been made since the module was loaded. *)
Theorem empty_store_reads_nothing :
  (forall st u n offset,
      card_size st = 0 ->
      device_read st u n offset = Rd 0 u offset
      /\ procfile_read st u n offset = Rd 0 u offset
      /\ delivered (device_read st u n offset) = []
      /\ delivered (procfile_read st u n offset) = [])
  /\ (forall zp cs,
        forallb (fun c => negb (is_procfile_write c)) cs = true ->
        card_size (run_calls zp initial cs) = 0).
Proof.
  split.
  - intros st u n offset Hz.
    unfold device_read, procfile_read. rewrite Hz. simpl.
    rewrite orb_true_r. done.
  - intros zp cs. unfold run_calls.
    assert (Hgen : forall st,
               forallb (fun c => negb (is_procfile_write c)) cs = true ->
               card_size (foldl (run_call zp) st cs) = card_size st).
    { induction cs as [|c cs IH]; intros st Hcs; simpl in *; [done|].
      apply andb_true_iff in Hcs as [Hc Hcs].
      rewrite IH by done.
      apply run_call_keeps_card. by destruct (is_procfile_write c). }
    intros Hcs. by rewrite Hgen.
Qed.

Lemma empty_store_reads_nothing_witness :
  (device_read initial (replicate 10 Byte.xff) 10 0
   = Rd 0 (replicate 10 Byte.xff) 0
   /\ procfile_read initial (replicate 10 Byte.xff) 10 0
      = Rd 0 (replicate 10 Byte.xff) 0
   /\ delivered (device_read initial (replicate 10 Byte.xff) 10 0) = []
   /\ delivered (procfile_read initial (replicate 10 Byte.xff) 10 0) = [])
  /\ card_size
       (run_calls true initial
          [DeviceOpen; DeviceRead (replicate 4 Byte.xff) 4 0; DeviceRelease])
     = 0.
Proof.
  destruct empty_store_reads_nothing as [Hread Hnever]. split.
  - apply (Hread initial (replicate 10 Byte.xff) 10 0). reflexivity.
  - apply (Hnever true
             [DeviceOpen; DeviceRead (replicate 4 Byte.xff) 4 0;
              DeviceRelease]).
    reflexivity.
Defined.

(** ** C6: the cursor of /proc/magician *)

(** C6. A read of /proc/magician with the cursor past 0 returns 0 and
    stores nothing, whatever the card; a read from cursor 0 that succeeds
    moves the cursor by the value it returns, so that the next read with
    that cursor returns 0. *)
Theorem procfile_read_one_shot st u n :
  (forall offset, 0 < offset ->
     procfile_read st u n offset = Rd 0 u offset)
  /\ (store_ok st -> 0 <= rd_ret (procfile_read st u n 0) ->
      rd_offset (procfile_read st u n 0)
      = 0 + rd_ret (procfile_read st u n 0))
  /\ (store_ok st -> 0 < rd_ret (procfile_read st u n 0) ->
      forall u' n',
        procfile_read st u' n' (rd_offset (procfile_read st u n 0))
        = Rd 0 u' (rd_offset (procfile_read st u n 0))).
Proof.
  assert (Hpast : forall u n offset, 0 < offset ->
            procfile_read st u n offset = Rd 0 u offset).
  { intros u0 n0 offset Hpos. unfold procfile_read.
    destruct (Z.gtb_spec offset 0); [done | lia]. }
  assert (Hadv : store_ok st -> 0 <= rd_ret (procfile_read st u n 0) ->
            rd_offset (procfile_read st u n 0)
            = 0 + rd_ret (procfile_read st u n 0)).
  { intros [Hsz _]. unfold procfile_read, copy_to_user. simpl.
    destruct (Z.eqb_spec (card_size st) 0) as [Hz|Hnz]; [done|].
    destruct (Z.eqb_spec (card_size st
                - Z.min (card_size st) (Z.of_nat (length u))) 0); simpl.
    - intros _. unfold to_ssize_t, to_loff_t, MAX_SIZE, SSIZE_MAX in *.
      rewrite !to_signed64_small by (unfold SSIZE_MAX; lia). lia.
    - unfold EFAULT. lia. }
  split; [apply Hpast|]. split; [exact Hadv|].
  intros Hok Hpos u' n'. apply Hpast. rewrite Hadv by (done || lia). lia.
Qed.

Lemma procfile_read_one_shot_witness :
  procfile_read store_AB (replicate 4 Byte.xff) 4 2
  = Rd 0 (replicate 4 Byte.xff) 2
  /\ rd_offset (procfile_read store_AB (replicate 4 Byte.xff) 4 0)
     = 0 + rd_ret (procfile_read store_AB (replicate 4 Byte.xff) 4 0)
  /\ procfile_read store_AB (replicate 1 Byte.xff) 1
       (rd_offset (procfile_read store_AB (replicate 4 Byte.xff) 4 0))
     = Rd 0 (replicate 1 Byte.xff)
         (rd_offset (procfile_read store_AB (replicate 4 Byte.xff) 4 0)).
Proof.
  destruct (procfile_read_one_shot store_AB (replicate 4 Byte.xff) 4)
    as (Hpast & Hadv & Hnext).
  split; [apply Hpast; lia|]. split.
  - apply Hadv; [exact store_AB_ok | vm_compute; discriminate].
  - apply Hnext; [exact store_AB_ok | reflexivity].
Defined.

(** ** C7: writes to /dev/magician *)

(** C7. A write to /dev/magician leaves [card], [card_size] and
    [already_open] as they were, does not move the cursor, and returns the
    length it was given. *)
Theorem device_write_changes_nothing st buffer n offset :
  wr_state (device_write st buffer n offset) = st
  /\ wr_offset (device_write st buffer n offset) = offset
  /\ (0 <= n <= SSIZE_MAX -> wr_ret (device_write st buffer n offset) = n).
Proof.
  split; [done|]. split; [done|].
  intros Hn. simpl. unfold to_ssize_t. by apply to_signed64_small.
Qed.

Lemma device_write_changes_nothing_witness :
  wr_state (device_write store_AB (bytes "XYZ") 3 0) = store_AB
  /\ wr_offset (device_write store_AB (bytes "XYZ") 3 0) = 0
  /\ wr_ret (device_write store_AB (bytes "XYZ") 3 0) = 3.
Proof.
  destruct (device_write_changes_nothing store_AB (bytes "XYZ") 3 0)
    as (Hst & Hoff & Hret).
  split; [exact Hst|]. split; [exact Hoff|].
  apply Hret. unfold SSIZE_MAX. lia.
Defined.

(** ** C8: what a read of /dev/magician depends on *)

Lemma device_read_delivers st u n offset :
  store_ok st -> 0 <= n <= SSIZE_MAX -> n <= Z.of_nat (length u) ->
  delivered (device_read st u n offset)
  = if decide (card_size st = 0) then []
    else cyclic (stored_card st) (Z.to_nat n).
Proof.
  intros Hok Hn Hroom. case_decide as Hz.
  - unfold device_read. by rewrite Hz.
  - rewrite device_read_closed_form by done.
    unfold delivered. cbn [rd_ret rd_user].
    apply take_app_length'. by rewrite cyclic_length.
Qed.

(** C8. What a read of /dev/magician returns and stores does not depend
    on the cursor it is given, reads leave the globals alone, and two
    stores holding the same card deliver the same bytes for the same
    requested length, whatever was read before.  So two reads of length 3
    in a row on the card ["AB"] both give ["ABA"], and after ["A"] is
    replaced by ["BC"] the next read of length 5 gives ["BCBCB"]. *)
Theorem device_read_history_independent :
  (forall st u n o1 o2,
      rd_ret (device_read st u n o1) = rd_ret (device_read st u n o2)
      /\ rd_user (device_read st u n o1) = rd_user (device_read st u n o2))
  /\ (forall zp st u n o, run_call zp st (DeviceRead u n o) = st)
  /\ (forall st1 st2 u1 u2 n o1 o2,
        store_ok st1 -> store_ok st2 ->
        stored_card st1 = stored_card st2 ->
        0 <= n <= SSIZE_MAX ->
        n <= Z.of_nat (length u1) -> n <= Z.of_nat (length u2) ->
        rd_ret (device_read st1 u1 n o1) = rd_ret (device_read st2 u2 n o2)
        /\ delivered (device_read st1 u1 n o1)
           = delivered (device_read st2 u2 n o2))
  /\ (let r1 := device_read store_AB (replicate 3 Byte.x00) 3 0 in
      let r2 := device_read store_AB (replicate 3 Byte.x00) 3 (rd_offset r1) in
      delivered r1 = bytes "ABA" /\ rd_offset r1 = 3
      /\ delivered r2 = bytes "ABA" /\ rd_offset r2 = 6)
  /\ (let r1 := device_read store_A (replicate 5 Byte.x00) 5 0 in
      let r2 := device_read store_BC (replicate 5 Byte.x00) 5 (rd_offset r1) in
      delivered r1 = bytes "AAAAA" /\ delivered r2 = bytes "BCBCB").
Proof.
  split.
  { intros st u n o1 o2. unfold device_read.
    destruct (card_size st =? 0); [done|].
    destruct (device_read_loop st u 0 0 (Z.to_nat n)) as [u' []]; done. }
  split; [done|]. split.
  { intros st1 st2 u1 u2 n o1 o2 Hok1 Hok2 Hcard Hn H1 H2.
    assert (Hsz : card_size st1 = card_size st2).
    { pose proof (stored_card_length st1 Hok1) as E1.
      pose proof (stored_card_length st2 Hok2) as E2.
      destruct Hok1 as [? _], Hok2 as [? _].
      rewrite Hcard in E1. lia. }
    split; [|by rewrite !device_read_delivers, Hcard, Hsz by done].
    destruct (decide (card_size st1 = 0)) as [Hz|Hnz].
    - unfold device_read. by rewrite <- Hsz, Hz.
    - by rewrite !device_read_closed_form by (done || congruence). }
  split; by vm_compute.
Qed.

Lemma device_read_history_independent_witness :
  rd_ret (device_read store_AB (replicate 4 Byte.x00) 4 0)
  = rd_ret (device_read store_AB_over_HELLO (replicate 6 Byte.xff) 4 4)
  /\ delivered (device_read store_AB (replicate 4 Byte.x00) 4 0)
     = delivered (device_read store_AB_over_HELLO (replicate 6 Byte.xff) 4 4).
Proof.
  destruct device_read_history_independent as (_ & _ & Hsame & _).
  apply Hsame.
  - exact store_AB_ok.
  - split; [vm_compute; intuition discriminate | reflexivity].
  - reflexivity.
  - unfold SSIZE_MAX. lia.
  - simpl. lia.
  - simpl. lia.
Defined.

(** ** C9: the store invariant *)

Lemma procfile_write_store_ok zp st buffer n offset :
  0 <= n -> store_ok st ->
  store_ok (wr_state (procfile_write zp st buffer n offset)).
Proof.
  intros Hn [Hsz Hlen]. rewrite procfile_write_unfold. cbv zeta.
  assert (Hm : 0 <= Z.min n (MAX_SIZE - 1) < MAX_SIZE)
    by (unfold MAX_SIZE; lia).
  assert (Hc : length (fst (copy_from_user zp (card st) buffer
                              (Z.min n (MAX_SIZE - 1))))
               = Z.to_nat MAX_SIZE).
  { rewrite copy_from_user_length; [done|]. rewrite Hlen. lia. }
  destruct (negb _); split; cbn [wr_state card card_size];
    rewrite ?length_insert; done.
Qed.

(** C9. [0 <= card_size < MAX_SIZE] (with [card] an array of [MAX_SIZE]
    bytes) holds when the module is loaded, and every call of a handler
    of either endpoint keeps it, a write to /proc/magician of any length
    and from any buffer, readable or not, included. *)
Theorem store_invariant zp :
  (store_ok initial /\ card_size initial = 0)
  /\ (forall st c, call_ok c -> store_ok st -> store_ok (run_call zp st c))
  /\ (forall cs, Forall call_ok cs -> store_ok (run_calls zp initial cs)).
Proof.
  assert (Hinit : store_ok initial) by (split; [by vm_compute | done]).
  assert (Hstep : forall st c,
             call_ok c -> store_ok st -> store_ok (run_call zp st c)).
  { intros st c Hc Hok.
    destruct (is_procfile_write c) eqn:Hw.
    - destruct c; try discriminate. destruct Hc as [[Hn _] _].
      by apply procfile_write_store_ok.
    - destruct (run_call_keeps_card zp st c Hw) as [Ecard Esize].
      destruct Hok as [Hsz Hlen]. split; congruence. }
  split; [done|]. split; [done|].
  intros cs Hcs. unfold run_calls.
  revert Hinit. generalize initial.
  induction Hcs as [|c cs Hc _ IH]; intros st Hok; simpl; [done|].
  apply IH. by apply Hstep.
Qed.

Lemma store_invariant_witness :
  store_ok
    (run_call false store_AB
       (ProcfileWrite (replicate 3000 Byte.x41) 3000 0))
  /\ store_ok
       (run_calls true initial
          [ProcfileWrite (bytes "AB") 2 0;
           DeviceOpen;
           ProcfileWrite [] 4096 2;
           DeviceRead [] 7 0;
           DeviceRelease]).
Proof.
  destruct (store_invariant false) as (_ & Hstep & _).
  destruct (store_invariant true) as (_ & _ & Hrun).
  split.
  - apply Hstep; [|exact store_AB_ok].
    unfold call_ok, size_t_range, loff_t_range, SIZE_MAX, SSIZE_MAX. lia.
  - apply Hrun.
    repeat constructor;
      unfold size_t_range, loff_t_range, SIZE_MAX, SSIZE_MAX; lia.
Defined.

(** ** C10: a write to /proc/magician that faults *)






(** * Further properties of the handlers *)

(** ** Reads into a buffer that is too short *)

(** Run beyond the end of the buffer, the loop of [device_read] fills what
    there is and stops at the first byte that has no room. *)
Lemma device_read_loop_short st todo :
  forall u p,
    0 <= p <= Z.of_nat (length u) ->
    Z.of_nat (length u) < p + Z.of_nat todo ->
    exists u',
      device_read_loop st u p p todo = (u', true)
      /\ length u' = length u
      /\ (forall j, (Z.to_nat p <= j < length u)%nat ->
            u' !! j
            = Some (card st !!! Z.to_nat (Z.of_nat j mod card_size st)))
      /\ (forall j, (j < Z.to_nat p)%nat -> u' !! j = u !! j).
Proof.
  induction todo as [|todo IH]; intros u p Hp Hshort; simpl; [lia|].
  destruct (decide (p < Z.of_nat (length u))) as [Hin|Hend].
  - rewrite put_user_ok by lia. simpl.
    destruct (IH (<[Z.to_nat p := card st !!! Z.to_nat (p mod card_size st)]> u)
                 (p + 1)) as (u' & Hrun & Hlen & Hfilled & Hkept);
      [rewrite length_insert; lia ..|].
    rewrite length_insert in Hlen, Hfilled.
    exists u'. rewrite Hrun. split; [done|]. split; [done|]. split.
    + intros j Hj. destruct (decide (j = Z.to_nat p)) as [->|Hne].
      * rewrite Hkept by lia. rewrite Z2Nat.id by lia.
        apply list_lookup_insert_eq. lia.
      * apply Hfilled. lia.
    + intros j Hj. rewrite Hkept by lia.
      apply list_lookup_insert_ne. lia.
  - rewrite put_user_fault by lia. exists u.
    split; [done|]. split; [done|]. split; [intros; lia | done].
Qed.

(** X1. When the caller's buffer is shorter than the length asked for and
    a card is stored, [device_read] returns [-EFAULT] and leaves the cursor
    where it was, although it has filled the whole buffer with the card
    repeated. *)
Theorem device_read_short_buffer st u n offset :
  store_ok st -> card_size st <> 0 -> Z.of_nat (length u) < n ->
  device_read st u n offset
  = Rd (- EFAULT) (cyclic (stored_card st) (length u)) offset.
Proof.
  intros Hok Hne Hshort. unfold device_read.
  destruct (Z.eqb_spec (card_size st) 0) as [|_]; [done|].
  destruct (device_read_loop_short st (Z.to_nat n) u 0)
    as (u' & Hrun & Hlen & Hfilled & _); [lia | lia |].
  rewrite Hrun. f_equal. apply list_eq. intros j.
  pose proof (stored_card_length st Hok) as Hc. destruct Hok as [Hsz _].
  destruct (decide (j < length u)%nat) as [Hj|Hj].
  - rewrite cyclic_lookup, Hfilled by lia. f_equal.
    rewrite Hc, to_nat_mod by lia.
    symmetry. apply stored_card_lookup_total.
    apply Nat.mod_upper_bound. lia.
  - rewrite !lookup_ge_None_2; [done | rewrite cyclic_length; lia | lia].
Qed.

Lemma device_read_short_buffer_witness :
  device_read store_AB (replicate 3 Byte.xff) 5 9
  = Rd (- EFAULT) (cyclic (stored_card store_AB) 3) 9.
Proof.
  apply (device_read_short_buffer store_AB (replicate 3 Byte.xff) 5 9).
  - exact store_AB_ok.
  - vm_compute. discriminate.
  - simpl. lia.
Defined.

(** X2. When the caller's buffer is shorter than the stored card, a read
    of /proc/magician from cursor 0 returns [-EFAULT] and leaves the
    cursor at 0, the buffer holding the first bytes of the card. *)
Theorem procfile_read_short_buffer st u n :
  store_ok st -> Z.of_nat (length u) < card_size st ->
  procfile_read st u n 0
  = Rd (- EFAULT) (take (length u) (stored_card st)) 0.
Proof.
  intros [Hsz Hlen] Hshort. unfold procfile_read, copy_to_user, stored_card.
  change (0 >? 0) with false. cbn [orb].
  destruct (Z.eqb_spec (card_size st) 0) as [|_]; [lia|].
  rewrite Z.min_r by lia. rewrite Nat2Z.id, drop_all, app_nil_r.
  destruct (Z.eqb_spec (card_size st - Z.of_nat (length u)) 0); [lia|].
  cbn [negb]. f_equal. rewrite take_take. f_equal. lia.
Qed.

Lemma procfile_read_short_buffer_witness :
  procfile_read store_HELLO (replicate 2 Byte.xff) 2 0
  = Rd (- EFAULT) (take 2 (stored_card store_HELLO)) 0.
Proof.
  apply (procfile_read_short_buffer store_HELLO (replicate 2 Byte.xff) 2).
  - split; [vm_compute; intuition discriminate | reflexivity].
  - vm_compute. reflexivity.
Defined.

(** ** What a successful read leaves alone *)

Lemma to_signed64_in_range x : loff_t_range x -> to_signed64 x = x.
Proof.
  unfold loff_t_range, SSIZE_MAX, to_signed64. intros Hx.
  destruct (Z.neg_nonneg_cases x) as [Hneg|Hpos].
  - replace (x mod 2 ^ 64) with (x + 2 ^ 64)
      by (apply (Z.mod_unique_pos _ _ (-1)); lia).
    destruct (Z.ltb_spec (x + 2 ^ 64) (2 ^ 63)); lia.
  - rewrite Z.mod_small by lia.
    destruct (Z.ltb_spec x (2 ^ 63)); lia.
Qed.

(** X3. A read of either endpoint that does not fail keeps the size of
    the caller's buffer, changes none of its bytes past the count it
    returns, and moves the cursor by exactly that count (as long as the
    sum fits [loff_t]). *)
Theorem successful_read_frame st u n offset :
  store_ok st -> 0 <= n <= SSIZE_MAX ->
  (let r := device_read st u n offset in
   0 <= rd_ret r ->
   length (rd_user r) = length u
   /\ drop (Z.to_nat (rd_ret r)) (rd_user r) = drop (Z.to_nat (rd_ret r)) u
   /\ (loff_t_range (offset + rd_ret r) -> rd_offset r = offset + rd_ret r))
  /\ (let r := procfile_read st u n offset in
      0 <= rd_ret r ->
      length (rd_user r) = length u
      /\ drop (Z.to_nat (rd_ret r)) (rd_user r) = drop (Z.to_nat (rd_ret r)) u
      /\ (loff_t_range (offset + rd_ret r) -> rd_offset r = offset + rd_ret r)).
Proof.
  intros Hok Hn. split.
  - intros r. subst r. destruct (decide (card_size st = 0)) as [Hz|Hnz].
    { unfold device_read. rewrite Hz. cbn. intros _.
      split; [done|]. split; [done|]. intros _. lia. }
    destruct (decide (Z.of_nat (length u) < n)) as [Hshort|Hroom].
    { destruct (device_read_fault st u n offset Hnz Hshort) as [-> _].
      unfold EFAULT. lia. }
    rewrite device_read_closed_form by (done || lia).
    cbn [rd_ret rd_user rd_offset]. intros _. split; [|split].
    + rewrite length_app, cyclic_length, length_drop. lia.
    + apply drop_app_length'. by rewrite cyclic_length.
    + intros Hfit. by apply to_signed64_in_range.
  - intros r. subst r. unfold procfile_read.
    destruct ((offset >? 0) || (card_size st =? 0)) eqn:Hskip.
    { cbn. intros _. split; [done|]. split; [done|]. intros _. lia. }
    apply orb_false_iff in Hskip as [Hoff Hsz0].
    destruct Hok as [Hsz Hlen].
    destruct (decide (Z.of_nat (length u) < card_size st)) as [Hshort|Hroom].
    { unfold copy_to_user. rewrite Z.min_r by lia.
      destruct (Z.eqb_spec (card_size st - Z.of_nat (length u)) 0); [lia|].
      cbn. unfold EFAULT. lia. }
    rewrite copy_to_user_ok by lia. cbn [Z.eqb negb].
    unfold to_ssize_t.
    rewrite to_signed64_small by (unfold MAX_SIZE, SSIZE_MAX in *; lia).
    cbn [rd_ret rd_user rd_offset]. intros _.
    assert (Htake : length (take (Z.to_nat (card_size st)) (card st))
                    = Z.to_nat (card_size st))
      by (rewrite length_take, Hlen; unfold MAX_SIZE in *; lia).
    split; [|split].
    + rewrite length_app, Htake, length_drop. lia.
    + by apply drop_app_length'.
    + intros Hfit. by apply to_signed64_in_range.
Qed.

Lemma successful_read_frame_witness :
  (let r := device_read store_AB (bytes "0123456789") 5 100 in
   length (rd_user r) = length (bytes "0123456789")
   /\ drop (Z.to_nat (rd_ret r)) (rd_user r)
      = drop (Z.to_nat (rd_ret r)) (bytes "0123456789")
   /\ rd_offset r = 100 + rd_ret r)
  /\ (let r := procfile_read store_AB (bytes "0123456789") 1 0 in
      length (rd_user r) = length (bytes "0123456789")
      /\ drop (Z.to_nat (rd_ret r)) (rd_user r)
         = drop (Z.to_nat (rd_ret r)) (bytes "0123456789")
      /\ rd_offset r = 0 + rd_ret r).
Proof.
  assert (Hn5 : 0 <= 5 <= SSIZE_MAX) by (unfold SSIZE_MAX; lia).
  assert (Hn1 : 0 <= 1 <= SSIZE_MAX) by (unfold SSIZE_MAX; lia).
  destruct (successful_read_frame store_AB (bytes "0123456789") 5 100
              store_AB_ok Hn5) as [Hdev _].
  destruct (successful_read_frame store_AB (bytes "0123456789") 1 0
              store_AB_ok Hn1) as [_ Hproc].
  split.
  - destruct Hdev as (H1 & H2 & H3); [vm_compute; discriminate|].
    split; [exact H1|]. split; [exact H2|].
    apply H3. vm_compute. split; discriminate.
  - destruct Hproc as (H1 & H2 & H3); [vm_compute; discriminate|].
    split; [exact H1|]. split; [exact H2|].
    apply H3. vm_compute. split; discriminate.
Defined.

(** ** The buffer after a write to /proc/magician *)

(** X4. A write to /proc/magician from a readable buffer [s] replaces the
    first [m = min(len(s), MAX_SIZE - 1)] bytes of [card] by those of [s],
    puts a NUL at index [m] (inside the array) and leaves the bytes after
    it as they were; the occupancy flag is untouched and the cursor moves
    by [m] when the sum fits [loff_t]. *)
Theorem procfile_write_layout zp st s offset :
  store_ok st ->
  let m := Z.to_nat (Z.min (Z.of_nat (length s)) (MAX_SIZE - 1)) in
  let w := procfile_write zp st s (Z.of_nat (length s)) offset in
  card (wr_state w) = take m s ++ Byte.x00 :: drop (S m) (card st)
  /\ card (wr_state w) !! m = Some Byte.x00
  /\ (m < Z.to_nat MAX_SIZE)%nat
  /\ already_open (wr_state w) = already_open st
  /\ (loff_t_range (offset + Z.of_nat m) ->
      wr_offset w = offset + Z.of_nat m).
Proof.
  intros [Hsz Hlen] m w.
  assert (Hm : (m < Z.to_nat MAX_SIZE)%nat) by (unfold m, MAX_SIZE; lia).
  assert (Htake : length (take m s) = m)
    by (rewrite length_take; unfold m, MAX_SIZE; lia).
  assert (Hcard : card (wr_state w)
                  = take m s ++ Byte.x00 :: drop (S m) (card st)).
  { unfold w. rewrite procfile_write_ok. cbn [wr_state card]. fold m.
    rewrite insert_app_r_alt by lia. rewrite Htake, Nat.sub_diag.
    destruct (lookup_lt_is_Some_2 (card st) m) as [x Hx]; [lia|].
    by rewrite (drop_S _ _ _ Hx). }
  split; [done|]. split.
  { rewrite Hcard, lookup_app_r by lia. by rewrite Htake, Nat.sub_diag. }
  split; [done|]. split.
  { unfold w. by rewrite procfile_write_ok. }
  intros Hfit. unfold w. rewrite procfile_write_ok. cbn [wr_offset].
  unfold to_loff_t. rewrite to_signed64_in_range; unfold m in *.
  - unfold MAX_SIZE. lia.
  - replace (Z.min (Z.of_nat (length s)) (MAX_SIZE - 1))
      with (Z.of_nat (Z.to_nat (Z.min (Z.of_nat (length s)) (MAX_SIZE - 1))))
      by (unfold MAX_SIZE; lia).
    done.
Qed.

Lemma procfile_write_layout_witness :
  let w := procfile_write true store_HELLO (bytes "AB") 2 0 in
  card (wr_state w)
  = bytes "AB" ++ Byte.x00 :: drop 3 (card store_HELLO)
  /\ card (wr_state w) !! 2%nat = Some Byte.x00
  /\ wr_offset w = 2.
Proof.
  assert (Hok : store_ok store_HELLO)
    by (split; [vm_compute; intuition discriminate | reflexivity]).
  destruct (procfile_write_layout true store_HELLO (bytes "AB") 0 Hok)
    as (Hcard & Hnul & _ & _ & Hoff).
  split; [exact Hcard|]. split; [exact Hnul|].
  apply Hoff. vm_compute. split; discriminate.
Defined.

(** ** The card across calls *)

Lemma run_calls_keep_card zp cs :
  forall st,
    forallb (fun c => negb (is_procfile_write c)) cs = true ->
    card (run_calls zp st cs) = card st
    /\ card_size (run_calls zp st cs) = card_size st.
Proof.
  unfold run_calls.
  induction cs as [|c cs IH]; intros st Hcs; simpl in *; [done|].
  apply andb_true_iff in Hcs as [Hc Hcs].
  destruct (IH (run_call zp st c) Hcs) as [-> ->].
  apply run_call_keeps_card. by destruct (is_procfile_write c).
Qed.

Lemma run_call_store_ok zp st c :
  call_ok c -> store_ok st -> store_ok (run_call zp st c).
Proof.
  intros Hc Hok. destruct (is_procfile_write c) eqn:Hw.
  - destruct c; try discriminate. destruct Hc as [[Hn _] _].
    by apply procfile_write_store_ok.
  - destruct (run_call_keeps_card zp st c Hw) as [Ecard Esize].
    destruct Hok as [Hsz Hlen]. split; congruence.
Qed.

Lemma run_calls_store_ok zp cs :
  forall st, Forall call_ok cs -> store_ok st -> store_ok (run_calls zp st cs).
Proof.
  unfold run_calls.
  induction cs as [|c cs IH]; intros st Hcs Hok; simpl; [done|].
  inversion Hcs as [|? ? Hc Hrest]; subst.
  apply IH; [done|]. by apply run_call_store_ok.
Qed.

(** X5. The last write wins and stays: after any calls, a write of [s] to
    /proc/magician and then any calls that are not such a write (opens,
    releases, reads of either endpoint, writes to /dev/magician), the
    stored card is the first [MAX_SIZE - 1] bytes of [s], whatever was
    stored before and whatever the cursors were; a read of /dev/magician
    then delivers that card repeated. *)
Theorem last_write_wins zp st before s o after :
  forallb (fun c => negb (is_procfile_write c)) after = true ->
  let st' :=
    run_calls zp st
      (before ++ ProcfileWrite s (Z.of_nat (length s)) o :: after) in
  let kept := take (Z.to_nat (MAX_SIZE - 1)) s in
  stored_card st' = kept
  /\ card_size st' = Z.of_nat (length kept)
  /\ (store_ok st -> Forall call_ok before -> s <> [] ->
      forall u n offset,
        0 <= n <= SSIZE_MAX -> n <= Z.of_nat (length u) ->
        delivered (device_read st' u n offset) = cyclic kept (Z.to_nat n)).
Proof.
  intros Hafter st' kept.
  set (st0 := run_calls zp st before).
  set (w := procfile_write zp st0 s (Z.of_nat (length s)) o).
  assert (Hst' : card st' = card (wr_state w)
                 /\ card_size st' = card_size (wr_state w)).
  { unfold st', run_calls. rewrite foldl_app. cbn [foldl run_call].
    by apply run_calls_keep_card. }
  destruct Hst' as [Hcard Hsize].
  assert (Hstored : stored_card st' = kept).
  { unfold stored_card. rewrite Hcard, Hsize. apply procfile_write_stored. }
  assert (Hlen : card_size st' = Z.of_nat (length kept)).
  { rewrite Hsize. unfold w. rewrite procfile_write_ok. cbn [wr_state card_size].
    unfold kept. rewrite length_take. unfold MAX_SIZE. lia. }
  split; [done|]. split; [done|].
  intros Hok Hbefore Hs u n offset Hn Hroom.
  assert (Hok' : store_ok st').
  { assert (Hw : store_ok (wr_state w)).
    { apply procfile_write_store_ok; [lia|].
      by apply run_calls_store_ok. }
    destruct Hw as [Hwsz Hwlen]. split; congruence. }
  rewrite device_read_delivers by done.
  rewrite decide_False; [by rewrite Hstored|].
  rewrite Hlen. unfold kept. rewrite length_take.
  destruct s; [done|]. simpl. unfold MAX_SIZE. lia.
Qed.

Lemma last_write_wins_witness :
  let st' :=
    run_calls true store_HELLO
      ([DeviceOpen; ProcfileWrite (bytes "XYZ") 3 0]
         ++ ProcfileWrite (bytes "AB") 2 5
         :: [DeviceRead (replicate 4 Byte.xff) 4 0; DeviceRelease;
             DeviceWrite (bytes "Q") 1 0]) in
  stored_card st' = take (Z.to_nat (MAX_SIZE - 1)) (bytes "AB")
  /\ delivered (device_read st' (replicate 5 Byte.xff) 5 0)
     = cyclic (take (Z.to_nat (MAX_SIZE - 1)) (bytes "AB")) (Z.to_nat 5).
Proof.
  destruct (last_write_wins true store_HELLO
              [DeviceOpen; ProcfileWrite (bytes "XYZ") 3 0]
              (bytes "AB") 5
              [DeviceRead (replicate 4 Byte.xff) 4 0; DeviceRelease;
               DeviceWrite (bytes "Q") 1 0]
              eq_refl) as (Hstored & _ & Hread).
  split; [exact Hstored|].
  apply Hread.
  - split; [vm_compute; intuition discriminate | reflexivity].
  - repeat constructor;
      unfold size_t_range, loff_t_range, SIZE_MAX, SSIZE_MAX; lia.
  - discriminate.
  - unfold SSIZE_MAX. lia.
  - simpl. lia.
Defined.

(** ** Whole periods *)

Lemma cyclic_period (c : list byte) n :
  c <> [] -> cyclic c (length c + n) = c ++ cyclic c n.
Proof.
  intros Hc. assert (Hpos : (0 < length c)%nat) by (destruct c; simpl; [done | lia]).
  apply list_eq. intros j.
  destruct (decide (j < length c)%nat) as [Hj|Hj].
  - rewrite cyclic_lookup, lookup_app_l by lia.
    rewrite Nat.mod_small by done.
    symmetry. by apply list_lookup_lookup_total_lt.
  - rewrite lookup_app_r by lia.
    destruct (decide (j < length c + n)%nat) as [Hin|Hout].
    + rewrite !cyclic_lookup by lia. do 2 f_equal.
      replace j with (j - length c + 1 * length c)%nat at 1 by lia.
      apply Nat.Div0.mod_add.
    + rewrite !lookup_ge_None_2; [done | rewrite cyclic_length; lia ..].
Qed.

Lemma cyclic_periods (c : list byte) k :
  c <> [] -> cyclic c (k * length c) = concat (replicate k c).
Proof.
  intros Hc. induction k as [|k IH]; [done|].
  cbn [Nat.mul replicate concat]. rewrite cyclic_period by done.
  by rewrite IH.
Qed.

(** X6. After a non-empty card [s] of fewer than [MAX_SIZE] bytes has
    been written, a read of /dev/magician of [k] times its length
    delivers exactly [k] copies of [s] one after the other. *)
Theorem device_read_whole_periods zp st s o k u offset :
  store_ok st ->
  s <> [] -> Z.of_nat (length s) < MAX_SIZE ->
  Z.of_nat (k * length s) <= SSIZE_MAX ->
  (k * length s <= length u)%nat ->
  let st' := wr_state (procfile_write zp st s (Z.of_nat (length s)) o) in
  delivered (device_read st' u (Z.of_nat (k * length s)) offset)
  = concat (replicate k s).
Proof.
  intros Hok Hs Hlen Hk Hroom st'.
  assert (Hstored : stored_card st' = s).
  { unfold st'. rewrite procfile_write_stored.
    apply take_ge. unfold MAX_SIZE in *. lia. }
  assert (Hok' : store_ok st')
    by (apply procfile_write_store_ok; [lia | done]).
  rewrite device_read_delivers by (done || lia).
  rewrite decide_False.
  - rewrite Hstored, Nat2Z.id. by apply cyclic_periods.
  - pose proof (stored_card_length st' Hok') as Hc. rewrite Hstored in Hc.
    destruct s; [done|]. simpl in Hc. lia.
Qed.

Lemma device_read_whole_periods_witness :
  delivered
    (device_read
       (wr_state (procfile_write false store_HELLO (bytes "abc") 3 0))
       (replicate 16 Byte.xff) 9 0)
  = bytes "abcabcabc".
Proof.
  apply (device_read_whole_periods false store_HELLO (bytes "abc") 0 3
           (replicate 16 Byte.xff) 0).
  - split; [vm_compute; intuition discriminate | reflexivity].
  - discriminate.
  - vm_compute. reflexivity.
  - vm_compute. discriminate.
  - simpl. lia.
Defined.

(** ** Loading and unloading *)

Lemma proc_remove_entry p a b c :
  proc_remove (Registry (Some p) a b c) p = Registry None a b c.
Proof. unfold proc_remove. cbn [proc_entry]. by rewrite decide_True. Qed.

Lemma unregister_chrdev_entry a m b c :
  unregister_chrdev (Registry a (Some m) b c) m = Registry a None b c.
Proof. unfold unregister_chrdev. cbn [chrdev]. by rewrite decide_True. Qed.

Lemma class_destroy_entry a b k c :
  class_destroy (Registry a b (Some k) c) k = Registry a b None c.
Proof. unfold class_destroy. cbn [dev_class]. by rewrite decide_True. Qed.

Lemma device_destroy_entry a b c k m :
  device_destroy (Registry a b c (Some (k, m))) k m = Registry a b c None.
Proof. unfold device_destroy. cbn [dev_node]. by rewrite decide_True. Qed.

(** The five ways through [magician_init], one per answer that can be
    refused and one for the load that goes through. *)
Section InitPaths.

Variable IS_ERR : Z -> bool.
Variable PTR_ERR : Z -> Z.
Variables (p m c d : Z) (h : handles) (st : magician).

Lemma magician_init_no_proc :
  p = 0 ->
  magician_init IS_ERR PTR_ERR (Answers p m c d) nothing_registered h st
  = Loaded (- ENOMEM) nothing_registered
      (Handles 0 (major h) (cls h) (dev h)) st.
Proof. intros ->. init_unfold. change (0 =? 0) with true. by init_step. Qed.

Lemma magician_init_no_chrdev :
  p <> 0 -> m < 0 ->
  magician_init IS_ERR PTR_ERR (Answers p m c d) nothing_registered h st
  = Loaded m nothing_registered (Handles p m (cls h) (dev h)) st.
Proof.
  intros Hp Hm. apply Z.eqb_neq in Hp. apply Z.ltb_lt in Hm.
  init_unfold. rewrite Hp. init_step. rewrite Hp, Hm. init_step.
  rewrite Hm. by rewrite proc_remove_entry.
Qed.

Lemma magician_init_no_class :
  p <> 0 -> 0 <= m -> IS_ERR c = true ->
  magician_init IS_ERR PTR_ERR (Answers p m c d) nothing_registered h st
  = Loaded (to_int (PTR_ERR c)) nothing_registered
      (Handles p m c (dev h)) st.
Proof.
  intros Hp Hm Hc. apply Z.eqb_neq in Hp. apply Z.ltb_ge in Hm.
  init_unfold. rewrite Hp. init_step. rewrite Hp, Hm. init_step.
  rewrite Hm, Hc. init_step. rewrite Hc.
  by rewrite unregister_chrdev_entry, proc_remove_entry.
Qed.

Lemma magician_init_no_device :
  p <> 0 -> 0 <= m -> IS_ERR c = false -> IS_ERR d = true ->
  magician_init IS_ERR PTR_ERR (Answers p m c d) nothing_registered h st
  = Loaded (to_int (PTR_ERR c)) nothing_registered (Handles p m c d) st.
Proof.
  intros Hp Hm Hc Hd. apply Z.eqb_neq in Hp. apply Z.ltb_ge in Hm.
  init_unfold. rewrite Hp. init_step. rewrite Hp, Hm. init_step.
  rewrite Hm, Hc. init_step. rewrite Hc, Hd. init_step. rewrite Hd.
  by rewrite class_destroy_entry, unregister_chrdev_entry,
    proc_remove_entry.
Qed.

Lemma magician_init_granted :
  p <> 0 -> 0 <= m -> IS_ERR c = false -> IS_ERR d = false ->
  magician_init IS_ERR PTR_ERR (Answers p m c d) nothing_registered h st
  = Loaded 0 (Registry (Some p) (Some m) (Some c) (Some (c, m)))
      (Handles p m c d)
      (set_card st (replicate (Z.to_nat MAX_SIZE) Byte.x00)).
Proof.
  intros Hp Hm Hc Hd. apply Z.eqb_neq in Hp. apply Z.ltb_ge in Hm.
  init_unfold. rewrite Hp. init_step. rewrite Hp, Hm. init_step.
  rewrite Hm, Hc. init_step. rewrite Hc, Hd. init_step. by rewrite Hd.
Qed.

End InitPaths.

Lemma answers_ok_true (IS_ERR : Z -> bool) p m c d :
  answers_ok IS_ERR (Answers p m c d) = true
  <-> p <> 0 /\ 0 <= m /\ IS_ERR c = false /\ IS_ERR d = false.
Proof.
  unfold answers_ok. init_step.
  rewrite !andb_true_iff, !negb_true_iff, Z.eqb_neq, Z.ltb_ge. tauto.
Qed.

(** X7. [magician_init] registers all or nothing.  When the kernel grants
    the four registrations it returns 0 with the /proc entry, the
    character device, the class and the device node on record under the
    handles it keeps, and with [card] cleared ([card_size] and the
    occupancy flag untouched).  When any of them is refused, everything
    registered before it has been taken back and the globals are as they
    were. *)
Theorem magician_init_all_or_nothing IS_ERR PTR_ERR a h st :
  let r := magician_init IS_ERR PTR_ERR a nothing_registered h st in
  (answers_ok IS_ERR a = true ->
   ld_ret r = 0
   /\ ld_registry r
      = Registry (Some (proc_create_ans a)) (Some (register_chrdev_ans a))
          (Some (class_create_ans a))
          (Some (class_create_ans a, register_chrdev_ans a))
   /\ ld_handles r
      = Handles (proc_create_ans a) (register_chrdev_ans a)
          (class_create_ans a) (device_create_ans a)
   /\ ld_state r
      = Magician (replicate (Z.to_nat MAX_SIZE) Byte.x00) (card_size st)
          (already_open st))
  /\ (answers_ok IS_ERR a = false ->
      ld_registry r = nothing_registered /\ ld_state r = st).
Proof.
  destruct a as [p m c d]. intros r. subst r. init_step. split.
  - intros (Hp & Hm & Hc & Hd)%answers_ok_true.
    by rewrite magician_init_granted.
  - intros Hbad.
    destruct (decide (p = 0)) as [Hp|Hp];
      [by rewrite magician_init_no_proc|].
    destruct (decide (m < 0)) as [Hm|Hm];
      [by rewrite magician_init_no_chrdev|].
    destruct (IS_ERR c) eqn:Hc;
      [by rewrite magician_init_no_class by (done || lia)|].
    destruct (IS_ERR d) eqn:Hd;
      [by rewrite magician_init_no_device by (done || lia)|].
    assert (Hok : answers_ok IS_ERR (Answers p m c d) = true)
      by (apply answers_ok_true; repeat split; done || lia).
    congruence.
Qed.

Lemma magician_init_all_or_nothing_witness :
  (let r :=
     magician_init linux_IS_ERR linux_PTR_ERR
       (Answers 4096 240 8192 12288) nothing_registered
       (Handles 0 0 0 0) store_AB in
   ld_ret r = 0
   /\ ld_registry r
      = Registry (Some 4096) (Some 240) (Some 8192) (Some (8192, 240))
   /\ ld_handles r = Handles 4096 240 8192 12288
   /\ ld_state r
      = Magician (replicate (Z.to_nat MAX_SIZE) Byte.x00)
          (card_size store_AB) (already_open store_AB))
  /\ (let r :=
        magician_init linux_IS_ERR linux_PTR_ERR
          (Answers 4096 240 8192 (2 ^ 64 - 12)) nothing_registered
          (Handles 0 0 0 0) store_AB in
      ld_registry r = nothing_registered /\ ld_state r = store_AB).
Proof.
  split.
  - apply (magician_init_all_or_nothing linux_IS_ERR linux_PTR_ERR
             (Answers 4096 240 8192 12288) (Handles 0 0 0 0) store_AB).
    reflexivity.
  - apply (magician_init_all_or_nothing linux_IS_ERR linux_PTR_ERR
             (Answers 4096 240 8192 (2 ^ 64 - 12)) (Handles 0 0 0 0)
             store_AB).
    reflexivity.
Defined.

(** X8. The value [magician_init] returns when a registration is
    refused: [-ENOMEM] for the /proc entry, the negative value
    [register_chrdev] gave for the character device, [PTR_ERR] of the
    error pointer for the class.  For the device node it is [PTR_ERR] of
    the class pointer, so the error [device_create] reported does not
    reach the caller: two refusals of the device node give the same
    value. *)
Theorem magician_init_error_code IS_ERR PTR_ERR a h st :
  let r := magician_init IS_ERR PTR_ERR a nothing_registered h st in
  (proc_create_ans a = 0 -> ld_ret r = - ENOMEM)
  /\ (proc_create_ans a <> 0 -> register_chrdev_ans a < 0 ->
      ld_ret r = register_chrdev_ans a)
  /\ (proc_create_ans a <> 0 -> 0 <= register_chrdev_ans a ->
      IS_ERR (class_create_ans a) = true ->
      ld_ret r = to_int (PTR_ERR (class_create_ans a)))
  /\ (proc_create_ans a <> 0 -> 0 <= register_chrdev_ans a ->
      IS_ERR (class_create_ans a) = false ->
      IS_ERR (device_create_ans a) = true ->
      ld_ret r = to_int (PTR_ERR (class_create_ans a))
      /\ forall d',
           IS_ERR d' = true ->
           ld_ret (magician_init IS_ERR PTR_ERR
                     (Answers (proc_create_ans a) (register_chrdev_ans a)
                        (class_create_ans a) d')
                     nothing_registered h st)
           = ld_ret r).
Proof.
  destruct a as [p m c d]. intros r. subst r. init_step.
  split; [|split; [|split]].
  - intros Hp. by rewrite magician_init_no_proc.
  - intros Hp Hm. by rewrite magician_init_no_chrdev.
  - intros Hp Hm Hc. by rewrite magician_init_no_class.
  - intros Hp Hm Hc Hd. rewrite magician_init_no_device by done.
    split; [done|]. intros d' Hd'. by rewrite magician_init_no_device.
Qed.

Lemma magician_init_error_code_witness :
  ld_ret (magician_init linux_IS_ERR linux_PTR_ERR
            (Answers 0 240 8192 12288) nothing_registered
            (Handles 0 0 0 0) initial) = - ENOMEM
  /\ ld_ret (magician_init linux_IS_ERR linux_PTR_ERR
               (Answers 4096 (-16) 8192 12288) nothing_registered
               (Handles 0 0 0 0) initial) = -16
  /\ ld_ret (magician_init linux_IS_ERR linux_PTR_ERR
               (Answers 4096 240 (2 ^ 64 - 12) 12288) nothing_registered
               (Handles 0 0 0 0) initial)
     = to_int (linux_PTR_ERR (2 ^ 64 - 12))
  /\ ld_ret (magician_init linux_IS_ERR linux_PTR_ERR
               (Answers 4096 240 8192 (2 ^ 64 - 12)) nothing_registered
               (Handles 0 0 0 0) initial)
     = to_int (linux_PTR_ERR 8192)
  /\ ld_ret (magician_init linux_IS_ERR linux_PTR_ERR
               (Answers 4096 240 8192 (2 ^ 64 - 19)) nothing_registered
               (Handles 0 0 0 0) initial)
     = ld_ret (magician_init linux_IS_ERR linux_PTR_ERR
                 (Answers 4096 240 8192 (2 ^ 64 - 12)) nothing_registered
                 (Handles 0 0 0 0) initial).
Proof.
  destruct (magician_init_error_code linux_IS_ERR linux_PTR_ERR
              (Answers 0 240 8192 12288) (Handles 0 0 0 0) initial)
    as (Hproc & _).
  destruct (magician_init_error_code linux_IS_ERR linux_PTR_ERR
              (Answers 4096 (-16) 8192 12288) (Handles 0 0 0 0) initial)
    as (_ & Hchr & _).
  destruct (magician_init_error_code linux_IS_ERR linux_PTR_ERR
              (Answers 4096 240 (2 ^ 64 - 12) 12288) (Handles 0 0 0 0)
              initial)
    as (_ & _ & Hcls & _).
  destruct (magician_init_error_code linux_IS_ERR linux_PTR_ERR
              (Answers 4096 240 8192 (2 ^ 64 - 12)) (Handles 0 0 0 0)
              initial)
    as (_ & _ & _ & Hdev).
  cbn [proc_create_ans register_chrdev_ans class_create_ans
       device_create_ans] in *.
  assert (Hne : 4096 <> 0) by discriminate.
  assert (Hpos : 0 <= 240) by discriminate.
  assert (Hneg : -16 < 0) by reflexivity.
  split; [exact (Hproc eq_refl)|].
  split; [exact (Hchr Hne Hneg)|].
  split; [exact (Hcls Hne Hpos eq_refl)|].
  destruct (Hdev Hne Hpos eq_refl eq_refl) as [Hret Hsame].
  split; [exact Hret|].
  exact (Hsame (2 ^ 64 - 19) eq_refl).
Defined.

(** X9. Unloading undoes loading: after a [magician_init] that was
    granted its four registrations, [magician_exit] with the handles it
    kept leaves nothing on the kernel's records. *)
Theorem magician_exit_undoes_init IS_ERR PTR_ERR a h st :
  answers_ok IS_ERR a = true ->
  let r := magician_init IS_ERR PTR_ERR a nothing_registered h st in
  magician_exit (ld_registry r) (ld_handles r) = nothing_registered.
Proof.
  destruct a as [p m c d].
  intros (Hp & Hm & Hc & Hd)%answers_ok_true r. subst r.
  rewrite magician_init_granted by done.
  unfold magician_exit. cbn [ld_registry ld_handles]. init_step.
  by rewrite proc_remove_entry, device_destroy_entry, class_destroy_entry,
    unregister_chrdev_entry.
Qed.

Lemma magician_exit_undoes_init_witness :
  let r :=
    magician_init linux_IS_ERR linux_PTR_ERR
      (Answers 4096 240 8192 12288) nothing_registered
      (Handles 0 0 0 0) initial in
  magician_exit (ld_registry r) (ld_handles r) = nothing_registered.
Proof.
  apply (magician_exit_undoes_init linux_IS_ERR linux_PTR_ERR
           (Answers 4096 240 8192 12288) (Handles 0 0 0 0) initial).
  reflexivity.
Defined.

(** ** The value returned when the device node is refused *)

Lemma to_signed64_mod32 x : to_signed64 x mod 2 ^ 32 = x mod 2 ^ 32.
Proof.
  assert (Hdiv : (2 ^ 32 | 2 ^ 64)) by (by exists (2 ^ 32)).
  assert (Hlow : (x mod 2 ^ 64) mod 2 ^ 32 = x mod 2 ^ 32)
    by (by apply Z.mod_mod_divide).
  unfold to_signed64. destruct (x mod 2 ^ 64 <? 2 ^ 63); [done|].
  replace (x mod 2 ^ 64 - 2 ^ 64)
    with (x mod 2 ^ 64 + (- 2 ^ 32) * 2 ^ 32) by lia.
  by rewrite Z_mod_plus_full.
Qed.

Lemma to_int_to_signed64 x : to_int (to_signed64 x) = to_int x.
Proof. unfold to_int. by rewrite to_signed64_mod32. Qed.

(** X10. With [IS_ERR] and [PTR_ERR] as the kernel has them: when the
    device node is refused after the class was created, [magician_init]
    returns the class pointer cut to [int], whatever error
    [device_create] gave.  For a class pointer whose low 32 bits are 0
    that value is 0, so the load is reported as a success although
    nothing is left registered. *)
Theorem magician_init_device_error_lost a h st :
  proc_create_ans a <> 0 -> 0 <= register_chrdev_ans a ->
  linux_IS_ERR (class_create_ans a) = false ->
  linux_IS_ERR (device_create_ans a) = true ->
  let r :=
    magician_init linux_IS_ERR linux_PTR_ERR a nothing_registered h st in
  ld_ret r = to_int (class_create_ans a)
  /\ ld_registry r = nothing_registered
  /\ (class_create_ans a mod 2 ^ 32 = 0 -> ld_ret r = 0).
Proof.
  destruct a as [p m c d]. init_step. intros Hp Hm Hc Hd.
  rewrite magician_init_no_device by done. cbn [ld_ret ld_registry].
  unfold linux_PTR_ERR. rewrite to_int_to_signed64.
  split; [done|]. split; [done|].
  intros Hlow. unfold to_int. by rewrite Hlow.
Qed.

Lemma magician_init_device_error_lost_witness :
  let r :=
    magician_init linux_IS_ERR linux_PTR_ERR
      (Answers 4096 240 (2 ^ 64 - 2 ^ 47 + 2 ^ 32) (2 ^ 64 - 12))
      nothing_registered (Handles 0 0 0 0) initial in
  ld_ret r = 0 /\ ld_registry r = nothing_registered.
Proof.
  destruct (magician_init_device_error_lost
              (Answers 4096 240 (2 ^ 64 - 2 ^ 47 + 2 ^ 32) (2 ^ 64 - 12))
              (Handles 0 0 0 0) initial)
    as (_ & Hreg & Hzero).
  - discriminate.
  - discriminate.
  - reflexivity.
  - reflexivity.
  - split; [apply Hzero; reflexivity | exact Hreg].
Defined.
